(** * tools/font.py: bitmap font asset generator

    A shallow embedding of [tools/font.py] and the properties of its
    configuration values, glyph table and 1-bit packer.

    Python integers are [Z]; the canvas is a PIL image, seen through the only
    operation the script uses to read it back ([getpixel]); exceptions are an
    explicit error result threaded through the two loops of [get_1bit]. *)

From Stdlib Require Import ZArith List Lia Bool QArith.
From Stdlib.Strings Require Import Ascii String Byte.
Import ListNotations.

#[local] Open Scope Z_scope.

(** ** Python values and exceptions *)

Inductive PyErr : Type :=
| IndexError
| ValueError.

Inductive result (A : Type) : Type :=
| Ok (a : A)
| Raise (e : PyErr).

Arguments Ok {A} a.
Arguments Raise {A} e.

Definition bind {A B : Type} (m : result A) (k : A -> result B) : result B :=
  match m with
  | Ok a => k a
  | Raise e => Raise e
  end.

Notation "x <- m ;; k" := (bind m (fun x => k))
  (at level 61, m at next level, right associativity).
Notation "' p <- m ;; k" := (bind m (fun x => let p := x in k))
  (at level 61, p pattern, m at next level, right associativity).

(** [for a in l: s = body(s, a)], stopping at the first exception. *)
Fixpoint for_each {A S : Type} (body : S -> A -> result S) (l : list A) (s : S)
  : result S :=
  match l with
  | [] => Ok s
  | a :: l' => s' <- body s a ;; for_each body l' s'
  end.

(** [range(n)]: empty when [n <= 0]. *)
Definition range (n : Z) : list Z := map Z.of_nat (seq 0 (Z.to_nat n)).

(** [v << n] on Python integers; a negative shift count raises. *)
Definition py_lshift (v n : Z) : result Z :=
  if n <? 0 then Raise ValueError else Ok (Z.shiftl v n).

(** [int(q)] truncates toward zero. *)
Definition py_int (q : Q) : Z := Z.quot (Qnum q) (Z.pos (Qden q)).

(** [s[a:b]] for [0 <= a <= b]; the bounds clamp to the length. *)
Definition slice {A : Type} (s : list A) (a b : Z) : list A :=
  firstn (Z.to_nat (b - a)) (skipn (Z.to_nat a) s).

(** [bytes(l)]: every element has to be in [range(256)]. *)
Definition py_byte (z : Z) : result byte :=
  if z <? 0 then Raise ValueError
  else match Byte.of_N (Z.to_N z) with
       | Some b => Ok b
       | None => Raise ValueError
       end.

Fixpoint py_bytes (l : list Z) : result (list byte) :=
  match l with
  | [] => Ok []
  | z :: l' => b <- py_byte z ;; bs <- py_bytes l' ;; Ok (b :: bs)
  end.

(** ** The canvas

    An RGB pixel is the triple [getpixel] returns; [b[0]] is its red channel.
    An image is its size and its pixel store.  [getpixel] raises [IndexError]
    outside the image; the coordinates [get_1bit] passes come from [range] and
    are never negative. *)

Definition pixel : Type := Z * Z * Z.

Definition chan0 (b : pixel) : Z := fst (fst b).

Record Image : Type := {
  im_size : Z * Z;
  im_load : Z -> Z -> pixel
}.

Definition getpixel (im : Image) (xy : Z * Z) : result pixel :=
  let '(x, y) := xy in
  if (0 <=? x) && (x <? fst (im_size im)) && (0 <=? y) && (y <? snd (im_size im))
  then Ok (im_load im x y)
  else Raise IndexError.

Definition BG : pixel := (0, 0, 0).
Definition FG : pixel := (255, 255, 255).

(** [Image.new(FORMAT, size, color)] *)
Definition Image_new (size : Z * Z) (color : pixel) : Image :=
  {| im_size := size; im_load := fun _ _ => color |}.

(** ** FontCfg *)

Record FontCfg : Type := {
  NAME : string;
  FONT : string;
  WIDTH : Z;
  HEIGHT : Z;
  X_PAD : Z;
  Y_PAD : Z;
  CHAR_SIZE : Z;
  SIZE : Z * Z;
  BLOCK_SIZE : option Z
}.

(** The class body, statement by statement: [SIZE] is first the point size 26
    and is rebound to the canvas size on the last line.  [SIZE / 16 * 9] is
    float arithmetic in Python; on 26 (and on 50 below) every intermediate
    value is a dyadic rational with a few bits, so the float computation is
    exact and [Q] gives the same number. *)
Definition FontCfg_new : FontCfg :=
  let SIZE0 := 26 in
  let WIDTH := py_int (inject_Z SIZE0 / inject_Z 16 * inject_Z 9)%Q + 1 in
  let HEIGHT := SIZE0 + 4 in
  {| NAME := "JBMONO";
     FONT := "JetBrainsMono.ttf";
     WIDTH := WIDTH;
     HEIGHT := HEIGHT;
     X_PAD := 0;
     Y_PAD := 0;
     CHAR_SIZE := 25;
     SIZE := (WIDTH * 16, HEIGHT * 6);
     BLOCK_SIZE := None |}.

(** [as_title] overwrites the attributes of [self]; the result is the
    configuration after the call. *)
Definition as_title (self : FontCfg) : FontCfg :=
  let BLOCK_SIZE := 50 in
  let WIDTH := py_int (inject_Z BLOCK_SIZE / inject_Z 16 * inject_Z 9)%Q in
  let HEIGHT := BLOCK_SIZE + 4 in
  {| NAME := "JBMONO_TITLE";
     FONT := "JetBrainsMono.ttf";
     WIDTH := WIDTH;
     HEIGHT := HEIGHT;
     X_PAD := 0;
     Y_PAD := 0;
     CHAR_SIZE := 48;
     SIZE := (WIDTH * 16, HEIGHT * 6);
     BLOCK_SIZE := Some BLOCK_SIZE |}.

(** ** The glyph table of draw_img *)

(** [bytes(i for i in range(128)).decode()] *)
Definition ASCII : list ascii := map ascii_of_nat (seq 0 128).

(** [str.isprintable] on a character below 128: the control characters
    (0..31 and 127) are not printable, the space is. *)
Definition isprintable (c : ascii) : bool :=
  let n := Z.of_nat (nat_of_ascii c) in (32 <=? n) && (n <=? 126).

(** [''.join(i for i in ASCII if i.isprintable()) + '?'] *)
Definition table_chars : list ascii := filter isprintable ASCII ++ ["?"%char].

(** [[table[idx * 16:idx * 16 + 16] for idx in range(6)]] *)
Definition table : list (list ascii) :=
  map (fun idx => slice table_chars (idx * 16) (idx * 16 + 16)) (range 6).

(** The cells [draw_img] draws, in drawing order: [(idx, idy, ch)]. *)
Definition enumerate {A : Type} (l : list A) : list (Z * A) :=
  combine (range (Z.of_nat (List.length l))) l.

Definition drawn_cells : list (Z * Z * ascii) :=
  flat_map (fun '(idy, line) => map (fun '(idx, ch) => (idx, idy, ch)) (enumerate line))
           (enumerate table).

(** ** get_1bit *)

(** The loop state: the output list and the two row-local variables. *)
Definition pack_state : Type := list Z * Z * Z.

(** One iteration of [for x in range(cfg.SIZE[0])]. *)
Definition pixel_step (im : Image) (y : Z) (st : pack_state) (x : Z)
  : result pack_state :=
  let '(charmap, v, bit) := st in
  b <- getpixel im (x, y) ;;
  let v := Z.shiftl v 1 + (if chan0 b >? 32 then 1 else 0) in
  let bit := bit + 1 in
  if bit =? 8 then Ok (charmap ++ [v], 0, 0) else Ok (charmap, v, bit).

(** One iteration of [for y in range(cfg.SIZE[1])]. *)
Definition row_step (cfg : FontCfg) (im : Image) (charmap : list Z) (y : Z)
  : result (list Z) :=
  ' (charmap, v, bit) <-
      for_each (pixel_step im y) (range (fst (SIZE cfg))) (charmap, 0, 0) ;;
  if negb (bit =? 0)
  then w <- py_lshift v (7 - bit) ;; Ok (charmap ++ [w])
  else Ok charmap.

Definition get_1bit (cfg : FontCfg) (im : Image) : result (list Z) :=
  for_each (row_step cfg im) (range (snd (SIZE cfg))) [].

(** What [gen] writes to the raw file, for the image [draw_img] returned. *)
Definition gen_raw (cfg : FontCfg) (im : Image) : result (list byte) :=
  res <- get_1bit cfg im ;; py_bytes res.

(** ** Reading the output

    The bit a pixel contributes, the value of a run of bits in the order the
    accumulator receives them, and the bytes one row appends. *)

Definition lit (b : pixel) : bool := chan0 b >? 32.

Definition bits_val (l : list bool) : Z :=
  fold_left (fun v x => Z.shiftl v 1 + Z.b2z x) l 0.

Definition row_bit (im : Image) (y : Z) (k : nat) : bool :=
  lit (im_load im (Z.of_nat k) y).

Definition byte_at (b : nat -> bool) (j : nat) : Z :=
  bits_val (map b (seq (8 * j) 8)).

Definition tail_val (b : nat -> bool) (q r : nat) : Z :=
  bits_val (map b (seq (8 * q) r)).

Definition row_bytes (b : nat -> bool) (n : nat) : list Z :=
  map (byte_at b) (seq 0 (n / 8))
  ++ (if (n mod 8 =? 0)%nat then []
      else [Z.shiftl (tail_val b (n / 8) (n mod 8)) (7 - Z.of_nat (n mod 8))]).

(** [ceil(W / 8)] *)
Definition ceil8 (W : Z) : Z := (W + 7) / 8.

(** The image is the canvas of the configuration, as in [gen], where it is
    [draw_img(cfg)]. *)
Definition canvas_of (cfg : FontCfg) (im : Image) : Prop :=
  im_size im = SIZE cfg.

(** The bytes of row [y], then the whole output, read off the pixel store. *)
Definition row_of (cfg : FontCfg) (im : Image) (y : Z) : list Z :=
  row_bytes (row_bit im y) (Z.to_nat (fst (SIZE cfg))).

Definition packed (cfg : FontCfg) (im : Image) : list Z :=
  flat_map (row_of cfg im) (range (snd (SIZE cfg))).

(** The position the code gives pixel [x] of a row of width [W] in its byte. *)
Definition bit_slot (W x : Z) : Z :=
  if x <? 8 * (W / 8) then 7 - x mod 8 else 6 - x mod 8.

(** The invariant of the two loops: the output holds bytes, and the
    accumulator holds as many bits as the counter says. *)
Definition is_byte (v : Z) : Prop := 0 <= v <= 255.

Definition pack_inv (st : pack_state) : Prop :=
  let '(charmap, v, bit) := st in
  Forall is_byte charmap /\ 0 <= bit < 8 /\ 0 <= v < 2 ^ bit.

(** ** Test values *)

(** [cfg.SIZE = size] *)
Definition set_SIZE (cfg : FontCfg) (size : Z * Z) : FontCfg :=
  {| NAME := NAME cfg; FONT := FONT cfg; WIDTH := WIDTH cfg; HEIGHT := HEIGHT cfg;
     X_PAD := X_PAD cfg; Y_PAD := Y_PAD cfg; CHAR_SIZE := CHAR_SIZE cfg;
     SIZE := size; BLOCK_SIZE := BLOCK_SIZE cfg |}.

(** Columns lit, dark, lit, dark, ..., starting with a lit one. *)
Definition stripes (size : Z * Z) : Image :=
  {| im_size := size; im_load := fun x _ => if Z.even x then FG else BG |}.

(** The first row as in [stripes], every other row lit. *)
Definition stripes_then_lit (size : Z * Z) : Image :=
  {| im_size := size;
     im_load := fun x y => if y =? 0 then (if Z.even x then FG else BG) else FG |}.

(** The same pixels as [stripes] on the canvas, another store outside it. *)
Definition stripes_framed (size : Z * Z) : Image :=
  {| im_size := size;
     im_load := fun x y =>
       if (0 <=? x) && (x <? fst size) && (0 <=? y) && (y <? snd size)
       then (if Z.even x then FG else BG) else (7, 7, 7) |}.

(** ** The glyphs of draw_img *)

(** The [draw.text] calls of [draw_img], in the order the two loops make
    them: the position passed and the character drawn. *)
Definition text_calls (cfg : FontCfg) : list ((Z * Z) * ascii) :=
  flat_map
    (fun '(idy, line) =>
       map (fun '(idx, ch) =>
              ((WIDTH cfg * idx + X_PAD cfg, HEIGHT cfg * idy + Y_PAD cfg), ch))
           (enumerate line))
    (enumerate table).

(** ** Further vocabulary for the properties *)

(** The integer a byte stands for. *)
Definition byte_val (b : byte) : Z := Z.of_N (Byte.to_N b).

(** A canvas laid out as the class body and [as_title] do: 16 cells across
    and 6 down. *)
Definition grid_cfg (cfg : FontCfg) : Prop :=
  SIZE cfg = (WIDTH cfg * 16, HEIGHT cfg * 6).

(** The grid cell of the [k]-th glyph. *)
Definition cell_at (k : nat) : Z * Z :=
  (Z.of_nat (k mod 16), Z.of_nat (k / 16)).

(** The canvas the configuration declares lies inside the image. *)
Definition fits (cfg : FontCfg) (im : Image) : Prop :=
  fst (SIZE cfg) <= fst (im_size im) /\ snd (SIZE cfg) <= snd (im_size im).

(** ** Loops and ranges *)

Ltac Zify.zify_post_hook ::= Z.to_euclidean_division_equations.

(** Name the quotient and the remainder of [n] by 8 and forget how they were
    computed. *)
Ltac split8 n :=
  pose proof (Nat.div_mod_eq n 8);
  pose proof (Nat.mod_upper_bound n 8 ltac:(lia));
  generalize dependent (n mod 8)%nat;
  generalize dependent (n / 8)%nat;
  intros.

Lemma Ok_inj {A : Type} (a a' : A) : Ok a = Ok a' -> a = a'.
Proof. congruence. Qed.

Lemma for_each_app {A S : Type} (body : S -> A -> result S) (l1 l2 : list A) (s : S) :
  for_each body (l1 ++ l2) s = (s' <- for_each body l1 s ;; for_each body l2 s').
Proof.
  revert s; induction l1 as [|a l1 IH]; intros s; simpl; [reflexivity|].
  destruct (body s a); simpl; auto.
Qed.

Lemma for_each_one {A S : Type} (body : S -> A -> result S) (a : A) (s : S) :
  for_each body [a] s = body s a.
Proof. simpl; destruct (body s a); reflexivity. Qed.

Lemma for_each_ext {A S : Type} (f g : S -> A -> result S) (l : list A) (s : S) :
  (forall a s', In a l -> f s' a = g s' a) ->
  for_each f l s = for_each g l s.
Proof.
  revert s; induction l as [|a l IH]; intros s H; simpl; [reflexivity|].
  rewrite (H a s) by (left; reflexivity).
  destruct (g s a); simpl; [|reflexivity].
  apply IH; intros; apply H; right; assumption.
Qed.

Lemma in_range (n x : Z) : In x (range n) <-> 0 <= x < n.
Proof.
  unfold range; rewrite in_map_iff; split.
  - intros (k & <- & Hk); apply in_seq in Hk; lia.
  - intros Hx; exists (Z.to_nat x); split; [lia|apply in_seq; lia].
Qed.

Lemma length_range (n : Z) : List.length (range n) = Z.to_nat n.
Proof. unfold range; now rewrite length_map, length_seq. Qed.

Lemma nth_range (n : Z) (i : nat) (d : Z) :
  (i < Z.to_nat n)%nat -> nth i (range n) d = Z.of_nat i.
Proof.
  intros Hi; unfold range.
  rewrite (nth_indep _ d (Z.of_nat 0)) by (rewrite length_map, length_seq; exact Hi).
  rewrite map_nth, seq_nth by exact Hi; reflexivity.
Qed.

(** ** The value of a run of bits *)

Lemma bits_val_snoc (l : list bool) (x : bool) :
  bits_val (l ++ [x]) = 2 * bits_val l + Z.b2z x.
Proof.
  unfold bits_val; rewrite fold_left_app; cbn [fold_left].
  now rewrite Z.shiftl_mul_pow2, Z.pow_1_r, Z.mul_comm by lia.
Qed.

Lemma bits_val_bound (l : list bool) :
  0 <= bits_val l < 2 ^ Z.of_nat (List.length l).
Proof.
  induction l as [|x l IH] using rev_ind; [cbv; split; congruence|].
  rewrite bits_val_snoc, length_app, Nat.add_comm; simpl List.length.
  rewrite Nat2Z.inj_succ, Z.pow_succ_r by lia.
  destruct x; simpl Z.b2z; lia.
Qed.

(** Bit [k] of the run, counted from its first bit, sits [k] places below
    the top of its value. *)
Lemma bits_val_testbit (l : list bool) (k : nat) :
  (k < List.length l)%nat ->
  Z.testbit (bits_val l) (Z.of_nat (List.length l) - 1 - Z.of_nat k) = nth k l false.
Proof.
  revert k; induction l as [|x l IH] using rev_ind; intros k Hk; [simpl in Hk; lia|].
  rewrite length_app in Hk |- *; simpl List.length in Hk |- *.
  rewrite bits_val_snoc.
  destruct (Nat.eq_dec k (List.length l)) as [->|Hne].
  - replace (Z.of_nat (List.length l + 1) - 1 - Z.of_nat (List.length l)) with 0 by lia.
    rewrite Z.testbit_0_r, app_nth2, Nat.sub_diag by lia; reflexivity.
  - replace (Z.of_nat (List.length l + 1) - 1 - Z.of_nat k)
      with (Z.succ (Z.of_nat (List.length l) - 1 - Z.of_nat k)) by lia.
    rewrite Z.testbit_succ_r, app_nth1 by lia.
    apply IH; lia.
Qed.

Lemma bits_val_high (l : list bool) (m : Z) :
  Z.of_nat (List.length l) <= m -> Z.testbit (bits_val l) m = false.
Proof.
  intros Hm; pose proof (bits_val_bound l) as [H0 H1].
  destruct (Z.eq_dec (bits_val l) 0) as [->|Hnz]; [apply Z.testbit_0_l|].
  apply Z.bits_above_log2; [exact H0|].
  apply Z.lt_le_trans with (Z.of_nat (List.length l)); [|exact Hm].
  apply Z.log2_lt_pow2; lia.
Qed.

Lemma bits_val_ext (b b' : nat -> bool) (s n : nat) :
  (forall k, (s <= k < s + n)%nat -> b k = b' k) ->
  bits_val (map b (seq s n)) = bits_val (map b' (seq s n)).
Proof.
  intros H; f_equal; apply map_ext_in; intros k Hk; apply in_seq in Hk; auto.
Qed.

Lemma tail_val_S (b : nat -> bool) (q r : nat) :
  tail_val b q (S r) = 2 * tail_val b q r + Z.b2z (b (8 * q + r)%nat).
Proof.
  unfold tail_val; rewrite seq_S, map_app; cbn [map]; apply bits_val_snoc.
Qed.

Lemma byte_at_last (b : nat -> bool) (q : nat) :
  byte_at b q = 2 * tail_val b q 7 + Z.b2z (b (8 * q + 7)%nat).
Proof. exact (tail_val_S b q 7). Qed.

(** ** One row *)

Section Row.
Variables (im : Image) (y : Z).

Lemma pixel_step_ok (cm : list Z) (v bit : Z) (k : nat) :
  getpixel im (Z.of_nat k, y) = Ok (im_load im (Z.of_nat k) y) ->
  pixel_step im y (cm, v, bit) (Z.of_nat k) =
  if bit + 1 =? 8 then Ok (cm ++ [2 * v + Z.b2z (row_bit im y k)], 0, 0)
  else Ok (cm, 2 * v + Z.b2z (row_bit im y k), bit + 1).
Proof.
  intros Hpx; unfold pixel_step; rewrite Hpx; cbv beta iota zeta delta [bind].
  rewrite Z.shiftl_mul_pow2, Z.pow_1_r, (Z.mul_comm v 2) by lia.
  reflexivity.
Qed.

(** The state after the first [n = 8 q + r] pixels of the row. *)
Lemma pixel_loop (n : nat) :
  forall (q r : nat) (cm : list Z),
    n = (8 * q + r)%nat -> (r < 8)%nat ->
    (forall k, (k < n)%nat ->
               getpixel im (Z.of_nat k, y) = Ok (im_load im (Z.of_nat k) y)) ->
    for_each (pixel_step im y) (map Z.of_nat (seq 0 n)) (cm, 0, 0) =
    Ok (cm ++ map (byte_at (row_bit im y)) (seq 0 q), tail_val (row_bit im y) q r, Z.of_nat r).
Proof.
  induction n as [|n IH]; intros q r cm Hn Hr Hpx.
  - assert (q = 0%nat) by lia; assert (r = 0%nat) by lia; subst q r.
    simpl; now rewrite app_nil_r.
  - rewrite seq_S, map_app, for_each_app; simpl map.
    destruct r as [|r].
    + destruct q as [|q]; [lia|].
      rewrite (IH q 7%nat cm) by (try lia; intros; apply Hpx; lia).
      cbv beta iota delta [bind]; rewrite for_each_one, pixel_step_ok by (apply Hpx; lia).
      change (Z.of_nat 7 + 1 =? 8) with true; cbv iota.
      rewrite (seq_S q 0), map_app, app_assoc; simpl map.
      rewrite byte_at_last.
      replace n with (8 * q + 7)%nat by lia.
      reflexivity.
    + rewrite (IH q r cm) by (try lia; intros; apply Hpx; lia).
      cbv beta iota delta [bind]; rewrite for_each_one, pixel_step_ok by (apply Hpx; lia).
      replace (Z.of_nat r + 1 =? 8) with false by (symmetry; apply Z.eqb_neq; lia).
      rewrite tail_val_S.
      replace n with (8 * q + r)%nat by lia.
      now rewrite Nat2Z.inj_succ.
Qed.
End Row.

(** ** The whole canvas *)

Lemma getpixel_canvas (cfg : FontCfg) (im : Image) (x y : Z) :
  canvas_of cfg im ->
  0 <= x < fst (SIZE cfg) -> 0 <= y < snd (SIZE cfg) ->
  getpixel im (x, y) = Ok (im_load im x y).
Proof.
  unfold canvas_of, getpixel; intros -> Hx Hy.
  replace (0 <=? x) with true by (symmetry; apply Z.leb_le; lia).
  replace (x <? fst (SIZE cfg)) with true by (symmetry; apply Z.ltb_lt; lia).
  replace (0 <=? y) with true by (symmetry; apply Z.leb_le; lia).
  replace (y <? snd (SIZE cfg)) with true by (symmetry; apply Z.ltb_lt; lia).
  reflexivity.
Qed.

Lemma row_step_ok (cfg : FontCfg) (im : Image) (cm : list Z) (y : Z) :
  canvas_of cfg im -> 0 <= y < snd (SIZE cfg) ->
  row_step cfg im cm y = Ok (cm ++ row_of cfg im y).
Proof.
  intros Hc Hy; unfold row_step, row_of, range.
  set (n := Z.to_nat (fst (SIZE cfg))).
  assert (Hr : (n mod 8 < 8)%nat) by (apply Nat.mod_upper_bound; lia).
  rewrite (pixel_loop im y n (n / 8) (n mod 8) cm).
  - cbv beta iota zeta delta [bind]; unfold row_bytes.
    destruct (Nat.eqb_spec (n mod 8) 0) as [E|E].
    + rewrite E; simpl; now rewrite app_nil_r.
    + replace (Z.of_nat (n mod 8) =? 0) with false by (symmetry; apply Z.eqb_neq; lia).
      unfold py_lshift.
      replace (7 - Z.of_nat (n mod 8) <? 0) with false by (symmetry; apply Z.ltb_ge; lia).
      simpl; now rewrite app_assoc.
  - apply Nat.div_mod_eq.
  - exact Hr.
  - intros k Hk; apply (getpixel_canvas cfg); [exact Hc| unfold n in Hk; lia | exact Hy].
Qed.

Lemma rows_loop (cfg : FontCfg) (im : Image) (ys : list Z) (cm : list Z) :
  canvas_of cfg im ->
  (forall y, In y ys -> 0 <= y < snd (SIZE cfg)) ->
  for_each (row_step cfg im) ys cm = Ok (cm ++ flat_map (row_of cfg im) ys).
Proof.
  intros Hc; revert cm; induction ys as [|y ys IH]; intros cm Hys; simpl.
  - now rewrite app_nil_r.
  - rewrite row_step_ok by (auto; apply Hys; now left); simpl.
    rewrite IH by (intros; apply Hys; now right).
    now rewrite app_assoc.
Qed.

(** On its canvas [get_1bit] raises nothing, and returns the rows one after
    the other. *)
Lemma get_1bit_packed (cfg : FontCfg) (im : Image) :
  canvas_of cfg im -> get_1bit cfg im = Ok (packed cfg im).
Proof.
  intros Hc; unfold get_1bit, packed.
  rewrite rows_loop; [reflexivity | exact Hc | intros y; apply in_range].
Qed.

(** ** Rows: length, bytes and bits *)

Lemma length_row_bytes (b : nat -> bool) (n : nat) :
  Z.of_nat (List.length (row_bytes b n)) = ceil8 (Z.of_nat n).
Proof.
  unfold row_bytes, ceil8; rewrite length_app, length_map, length_seq.
  destruct (Nat.eqb_spec (n mod 8) 0); simpl List.length; split8 n; lia.
Qed.

Lemma length_row_of (cfg : FontCfg) (im : Image) (y : Z) :
  List.length (row_of cfg im y) = Z.to_nat (ceil8 (fst (SIZE cfg))).
Proof.
  unfold row_of.
  pose proof (length_row_bytes (row_bit im y) (Z.to_nat (fst (SIZE cfg)))) as H.
  unfold ceil8 in *; lia.
Qed.

Lemma length_flat_map_const {A B : Type} (f : A -> list B) (c : nat) (l : list A) :
  (forall a, List.length (f a) = c) ->
  List.length (flat_map f l) = (List.length l * c)%nat.
Proof.
  intros H; induction l as [|a l IH]; simpl; [reflexivity|].
  now rewrite length_app, H, IH.
Qed.

Lemma nth_flat_map_const {A B : Type} (f : A -> list B) (c : nat) (l : list A)
      (i j : nat) (da : A) (d : B) :
  (forall a, List.length (f a) = c) ->
  (i < List.length l)%nat -> (j < c)%nat ->
  nth (i * c + j) (flat_map f l) d = nth j (f (nth i l da)) d.
Proof.
  intros H; revert i; induction l as [|a l IH]; intros i Hi Hj; simpl in Hi; [lia|].
  simpl flat_map; destruct i as [|i].
  - simpl; rewrite app_nth1 by (rewrite H; exact Hj); reflexivity.
  - rewrite app_nth2 by (rewrite H; simpl; lia).
    rewrite H; replace (S i * c + j - c)%nat with (i * c + j)%nat by (simpl; lia).
    simpl nth; apply IH; [lia | exact Hj].
Qed.

Lemma nth_row_bytes_full (b : nat -> bool) (n j : nat) :
  (j < n / 8)%nat -> nth j (row_bytes b n) 0 = byte_at b j.
Proof.
  intros Hj; unfold row_bytes.
  rewrite app_nth1 by (now rewrite length_map, length_seq).
  rewrite (nth_indep _ 0 (byte_at b 0)) by (now rewrite length_map, length_seq).
  now rewrite map_nth, seq_nth.
Qed.

Lemma nth_row_bytes_tail (b : nat -> bool) (n : nat) :
  (n mod 8 <> 0)%nat ->
  nth (n / 8) (row_bytes b n) 0 =
  Z.shiftl (tail_val b (n / 8) (n mod 8)) (7 - Z.of_nat (n mod 8)).
Proof.
  intros Hr; unfold row_bytes.
  rewrite app_nth2 by (rewrite length_map, length_seq; lia).
  rewrite length_map, length_seq, Nat.sub_diag.
  destruct (Nat.eqb_spec (n mod 8) 0); [contradiction | reflexivity].
Qed.

Lemma nth_map_seq (b : nat -> bool) (s n i : nat) :
  (i < n)%nat -> nth i (map b (seq s n)) false = b (s + i)%nat.
Proof.
  intros Hi.
  rewrite (nth_indep _ false (b 0%nat)) by (now rewrite length_map, length_seq).
  now rewrite map_nth, seq_nth.
Qed.

Lemma tail_val_testbit (b : nat -> bool) (q r i : nat) :
  (i < r)%nat ->
  Z.testbit (tail_val b q r) (Z.of_nat r - 1 - Z.of_nat i) = b (8 * q + i)%nat.
Proof.
  intros Hi; unfold tail_val.
  pose proof (bits_val_testbit (map b (seq (8 * q) r)) i) as H.
  rewrite length_map, length_seq in H.
  rewrite H by exact Hi; now apply nth_map_seq.
Qed.

Lemma tail_val_high (b : nat -> bool) (q r : nat) (m : Z) :
  Z.of_nat r <= m -> Z.testbit (tail_val b q r) m = false.
Proof.
  intros Hm; unfold tail_val; apply bits_val_high.
  now rewrite length_map, length_seq.
Qed.

Lemma tail_val_bound (b : nat -> bool) (q r : nat) :
  0 <= tail_val b q r < 2 ^ Z.of_nat r.
Proof.
  unfold tail_val.
  pose proof (bits_val_bound (map b (seq (8 * q) r))) as H.
  now rewrite length_map, length_seq in H.
Qed.

(** In a complete byte, bit [i] of the group is at position [7 - i]. *)
Lemma byte_at_testbit (b : nat -> bool) (j i : nat) :
  (i < 8)%nat -> Z.testbit (byte_at b j) (7 - Z.of_nat i) = b (8 * j + i)%nat.
Proof.
  intros Hi; change (byte_at b j) with (tail_val b j 8).
  replace (7 - Z.of_nat i) with (Z.of_nat 8 - 1 - Z.of_nat i) by lia.
  now apply tail_val_testbit.
Qed.

(** In the trailing byte of a row, the shift by [7 - r] puts bit [i] of the
    [r] collected ones at position [6 - i]. *)
Lemma trailing_testbit (b : nat -> bool) (q r i : nat) :
  (i < r)%nat -> (r < 8)%nat ->
  Z.testbit (Z.shiftl (tail_val b q r) (7 - Z.of_nat r)) (6 - Z.of_nat i)
  = b (8 * q + i)%nat.
Proof.
  intros Hi Hr; rewrite Z.shiftl_spec by lia.
  replace (6 - Z.of_nat i - (7 - Z.of_nat r)) with (Z.of_nat r - 1 - Z.of_nat i) by lia.
  now apply tail_val_testbit.
Qed.

Lemma trailing_msb (b : nat -> bool) (q r : nat) :
  (r < 8)%nat -> Z.testbit (Z.shiftl (tail_val b q r) (7 - Z.of_nat r)) 7 = false.
Proof.
  intros Hr; rewrite Z.shiftl_spec by lia.
  apply tail_val_high; lia.
Qed.

Lemma trailing_low (b : nat -> bool) (q r : nat) (m : Z) :
  m < 7 - Z.of_nat r ->
  Z.testbit (Z.shiftl (tail_val b q r) (7 - Z.of_nat r)) m = false.
Proof.
  intros Hm; destruct (Z.neg_nonneg_cases m) as [Hn|Hn].
  - now apply Z.testbit_neg_r.
  - rewrite Z.shiftl_spec by exact Hn; apply Z.testbit_neg_r; lia.
Qed.

Lemma row_bytes_bit (b : nat -> bool) (n k : nat) :
  (k < n)%nat ->
  Z.testbit (nth (k / 8) (row_bytes b n) 0) (bit_slot (Z.of_nat n) (Z.of_nat k)) = b k.
Proof.
  intros Hk; unfold bit_slot.
  assert (Hkm : Z.of_nat k mod 8 = Z.of_nat (k mod 8)) by (split8 k; lia).
  rewrite Hkm; clear Hkm.
  destruct (Z.ltb_spec (Z.of_nat k) (8 * (Z.of_nat n / 8))) as [Hlt|Hge].
  - rewrite nth_row_bytes_full by (split8 n; split8 k; lia).
    rewrite byte_at_testbit by (apply Nat.mod_upper_bound; lia).
    now rewrite <- Nat.div_mod_eq.
  - assert (Hq : (k / 8 = n / 8)%nat) by (split8 n; split8 k; lia).
    rewrite Hq, nth_row_bytes_tail by (split8 n; lia).
    rewrite trailing_testbit;
      [ | split8 n; split8 k; lia | apply Nat.mod_upper_bound; lia].
    now rewrite <- Hq, <- Nat.div_mod_eq.
Qed.

Lemma bit_slot_range (W x : Z) : 0 <= x < W -> 0 <= bit_slot W x <= 7.
Proof.
  unfold bit_slot; intros Hx; destruct (Z.ltb_spec x (8 * (W / 8))); lia.
Qed.

(** Two pixels of a row that share a byte have different positions in it. *)
Lemma bit_slot_inj (W x x' : Z) :
  0 <= x < W -> 0 <= x' < W ->
  x / 8 = x' / 8 -> bit_slot W x = bit_slot W x' -> x = x'.
Proof.
  unfold bit_slot; intros Hx Hx' Hq.
  destruct (Z.ltb_spec x (8 * (W / 8))), (Z.ltb_spec x' (8 * (W / 8)));
    intros Hs; lia.
Qed.

Lemma ceil8_spec (W : Z) : 8 * (ceil8 W - 1) < W <= 8 * ceil8 W.
Proof. unfold ceil8; lia. Qed.

Lemma row_bytes_ext (b b' : nat -> bool) (n : nat) :
  (forall k, (k < n)%nat -> b k = b' k) -> row_bytes b n = row_bytes b' n.
Proof.
  intros H; unfold row_bytes; f_equal.
  - apply map_ext_in; intros j Hj; apply in_seq in Hj.
    unfold byte_at; apply bits_val_ext; intros k Hk; apply H.
    split8 n; lia.
  - destruct (Nat.eqb_spec (n mod 8) 0); [reflexivity|].
    unfold tail_val; do 2 f_equal; apply bits_val_ext; intros k Hk; apply H.
    split8 n; lia.
Qed.

Lemma length_packed (cfg : FontCfg) (im : Image) :
  List.length (packed cfg im) =
  (Z.to_nat (snd (SIZE cfg)) * Z.to_nat (ceil8 (fst (SIZE cfg))))%nat.
Proof.
  unfold packed.
  rewrite (length_flat_map_const _ (Z.to_nat (ceil8 (fst (SIZE cfg)))))
    by (intros; apply length_row_of).
  now rewrite length_range.
Qed.

(** Byte [j] of row [y] is byte [y * ceil(W/8) + j] of the output. *)
Lemma packed_byte (cfg : FontCfg) (im : Image) (y j : Z) :
  0 <= y < snd (SIZE cfg) -> 0 <= j < ceil8 (fst (SIZE cfg)) ->
  nth (Z.to_nat (y * ceil8 (fst (SIZE cfg)) + j)) (packed cfg im) 0 =
  nth (Z.to_nat j) (row_of cfg im y) 0.
Proof.
  intros Hy Hj; unfold packed.
  replace (Z.to_nat (y * ceil8 (fst (SIZE cfg)) + j))
    with (Z.to_nat y * Z.to_nat (ceil8 (fst (SIZE cfg))) + Z.to_nat j)%nat by nia.
  rewrite (nth_flat_map_const _ _ _ _ _ 0);
    [ | intros; apply length_row_of | rewrite length_range; lia | lia ].
  rewrite nth_range by lia.
  now rewrite Z2Nat.id by lia.
Qed.

(** Where each pixel is in the output, and what is there. *)
Lemma packed_bit (cfg : FontCfg) (im : Image) (x y : Z) :
  0 <= x < fst (SIZE cfg) -> 0 <= y < snd (SIZE cfg) ->
  Z.testbit (nth (Z.to_nat (y * ceil8 (fst (SIZE cfg)) + x / 8)) (packed cfg im) 0)
            (bit_slot (fst (SIZE cfg)) x)
  = lit (im_load im x y).
Proof.
  intros Hx Hy.
  rewrite packed_byte by (unfold ceil8; lia).
  unfold row_of.
  pose proof (row_bytes_bit (row_bit im y) (Z.to_nat (fst (SIZE cfg))) (Z.to_nat x)) as H.
  rewrite !Z2Nat.id in H by lia.
  replace (Z.to_nat (x / 8)) with (Z.to_nat x / 8)%nat by (split8 (Z.to_nat x); lia).
  rewrite H by lia.
  unfold row_bit; now rewrite Z2Nat.id by lia.
Qed.

(** ** Byte range: an invariant of both loops *)

Lemma for_each_invariant {A S : Type} (P : S -> Prop) (body : S -> A -> result S) :
  (forall s a s', P s -> body s a = Ok s' -> P s') ->
  forall l s s', P s -> for_each body l s = Ok s' -> P s'.
Proof.
  intros Hstep l; induction l as [|a l IH]; intros s s' Hs Hrun; simpl in Hrun.
  - now inversion Hrun; subst.
  - destruct (body s a) as [s1|e] eqn:E; simpl in Hrun; [|discriminate].
    eapply IH; [eapply Hstep; eassumption | exact Hrun].
Qed.

Lemma pixel_step_inv (im : Image) (y : Z) (st : pack_state) (x : Z) (st' : pack_state) :
  pack_inv st -> pixel_step im y st x = Ok st' -> pack_inv st'.
Proof.
  destruct st as [[cm v] bit]; unfold pixel_step, pack_inv.
  intros (Hcm & Hbit & Hv).
  destruct (getpixel im (x, y)) as [px|e]; cbv beta iota zeta delta [bind];
    [|discriminate].
  rewrite Z.shiftl_mul_pow2, Z.pow_1_r by lia.
  assert (Hp : 2 ^ (bit + 1) = 2 * 2 ^ bit) by (rewrite Z.pow_add_r; lia).
  set (d := if chan0 px >? 32 then 1 else 0).
  assert (Hd : 0 <= d <= 1) by (unfold d; destruct (chan0 px >? 32); lia).
  destruct (Z.eqb_spec (bit + 1) 8) as [E|E]; intros H; inversion H; subst; clear H.
  - repeat split; try lia.
    apply Forall_app; split; [exact Hcm|].
    apply Forall_cons; [|apply Forall_nil].
    rewrite E in Hp; change (2 ^ 8) with 256 in Hp; unfold is_byte; lia.
  - repeat split; try lia; exact Hcm.
Qed.

Lemma row_step_inv (cfg : FontCfg) (im : Image) (cm : list Z) (y : Z) (cm' : list Z) :
  Forall is_byte cm -> row_step cfg im cm y = Ok cm' -> Forall is_byte cm'.
Proof.
  intros Hcm; unfold row_step.
  destruct (for_each (pixel_step im y) (range (fst (SIZE cfg))) (cm, 0, 0))
    as [[[cm1 v] bit]|e] eqn:E; cbv beta iota zeta delta [bind]; [|discriminate].
  assert (Hinv : pack_inv (cm1, v, bit)).
  { eapply for_each_invariant; [apply pixel_step_inv | | exact E].
    unfold pack_inv; repeat split; try lia; exact Hcm. }
  destruct Hinv as (Hcm1 & Hbit & Hv).
  destruct (Z.eqb_spec bit 0) as [E0|E0]; cbn [negb].
  - intros [= <-]; exact Hcm1.
  - unfold py_lshift.
    replace (7 - bit <? 0) with false by (symmetry; apply Z.ltb_ge; lia).
    intros H; apply Ok_inj in H; subst cm'.
    apply Forall_app; split; [exact Hcm1|].
    apply Forall_cons; [|apply Forall_nil].
    rewrite Z.shiftl_mul_pow2 by lia.
    assert (Hp : 2 ^ bit * 2 ^ (7 - bit) = 128)
      by (rewrite <- Z.pow_add_r by lia; replace (bit + (7 - bit)) with 7 by lia;
          reflexivity).
    assert (0 < 2 ^ (7 - bit)) by (apply Z.pow_pos_nonneg; lia).
    unfold is_byte; nia.
Qed.

Lemma py_bytes_ok (l : list Z) :
  Forall is_byte l -> exists bs, py_bytes l = Ok bs.
Proof.
  induction 1 as [|z l Hz Hl [bs IH]]; simpl; [now exists []|].
  unfold py_byte, is_byte in *.
  replace (z <? 0) with false by (symmetry; apply Z.ltb_ge; lia).
  destruct (Byte.of_N (Z.to_N z)) as [b|] eqn:E.
  - rewrite IH; simpl; now exists (b :: bs).
  - apply Byte.of_N_None_iff in E; lia.
Qed.

(** * Properties of get_1bit *)

(** C2: for a configuration of canvas width [W] and height [H] and a
    [W]-by-[H] pixel buffer, [get_1bit] returns a list of
    [ceil(W/8) * H] elements. *)
Theorem get_1bit_length (cfg : FontCfg) (im : Image) :
  canvas_of cfg im ->
  0 <= fst (SIZE cfg) -> 0 <= snd (SIZE cfg) ->
  exists out,
    get_1bit cfg im = Ok out /\
    Z.of_nat (List.length out) = ceil8 (fst (SIZE cfg)) * snd (SIZE cfg).
Proof.
  intros Hc HW HH; exists (packed cfg im); split.
  - now apply get_1bit_packed.
  - rewrite length_packed; unfold ceil8; nia.
Qed.

Lemma get_1bit_length_witness :
  canvas_of (set_SIZE FontCfg_new (3, 2)) (stripes (3, 2)) /\
  exists out,
    get_1bit (set_SIZE FontCfg_new (3, 2)) (stripes (3, 2)) = Ok out /\
    Z.of_nat (List.length out) = ceil8 3 * 2.
Proof.
  split; [reflexivity|].
  apply (get_1bit_length (set_SIZE FontCfg_new (3, 2)) (stripes (3, 2)));
    [reflexivity | simpl; lia | simpl; lia].
Defined.

(** C3: for every pixel of the canvas, the bit [get_1bit] packs for it is 1
    exactly when its red channel is strictly greater than 32, and 0 exactly
    when it is at most 32.  The bit of pixel [(x, y)] is bit [bit_slot W x]
    of byte [y * ceil(W/8) + x / 8]. *)
Theorem get_1bit_threshold (cfg : FontCfg) (im : Image) :
  canvas_of cfg im ->
  exists out,
    get_1bit cfg im = Ok out /\
    forall x y,
      0 <= x < fst (SIZE cfg) -> 0 <= y < snd (SIZE cfg) ->
      let byte := nth (Z.to_nat (y * ceil8 (fst (SIZE cfg)) + x / 8)) out 0 in
      let packed_bit := Z.testbit byte (bit_slot (fst (SIZE cfg)) x) in
      (packed_bit = true <-> chan0 (im_load im x y) > 32) /\
      (packed_bit = false <-> chan0 (im_load im x y) <= 32).
Proof.
  intros Hc; exists (packed cfg im); split; [now apply get_1bit_packed|].
  intros x y Hx Hy; cbv zeta.
  rewrite packed_bit by assumption.
  unfold lit; rewrite Z.gtb_ltb.
  destruct (Z.ltb_spec 32 (chan0 (im_load im x y))); split; split;
    intros; try discriminate; try reflexivity; lia.
Qed.

Lemma get_1bit_threshold_witness :
  canvas_of (set_SIZE FontCfg_new (3, 2)) (stripes (3, 2)) /\
  exists out,
    get_1bit (set_SIZE FontCfg_new (3, 2)) (stripes (3, 2)) = Ok out /\
    forall x y,
      0 <= x < 3 -> 0 <= y < 2 ->
      let byte := nth (Z.to_nat (y * ceil8 3 + x / 8)) out 0 in
      let packed_bit := Z.testbit byte (bit_slot 3 x) in
      (packed_bit = true <-> chan0 (im_load (stripes (3, 2)) x y) > 32) /\
      (packed_bit = false <-> chan0 (im_load (stripes (3, 2)) x y) <= 32).
Proof.
  split; [reflexivity|].
  apply (get_1bit_threshold (set_SIZE FontCfg_new (3, 2)) (stripes (3, 2)));
    reflexivity.
Defined.

(** Row-major and MSB-first, on the complete groups: pixel [k] of row [y],
    for [k] within a complete group of 8, is stored in bit [7 - k mod 8] of
    byte [k / 8] of the row's bytes, which start at [y * ceil(W/8)]; so the
    first pixel of a row that has a complete group is the most significant
    bit of the row's first byte. *)
Theorem get_1bit_msb_first (cfg : FontCfg) (im : Image) :
  canvas_of cfg im ->
  exists out,
    get_1bit cfg im = Ok out /\
    (forall y k,
        0 <= y < snd (SIZE cfg) -> 0 <= k < 8 * (fst (SIZE cfg) / 8) ->
        Z.testbit (nth (Z.to_nat (y * ceil8 (fst (SIZE cfg)) + k / 8)) out 0)
                  (7 - k mod 8)
        = lit (im_load im k y)) /\
    (8 <= fst (SIZE cfg) ->
     forall y,
       0 <= y < snd (SIZE cfg) ->
       Z.testbit (nth (Z.to_nat (y * ceil8 (fst (SIZE cfg)))) out 0) 7
       = lit (im_load im 0 y)).
Proof.
  intros Hc; exists (packed cfg im); split; [now apply get_1bit_packed|].
  assert (Hfull : forall y k,
             0 <= y < snd (SIZE cfg) -> 0 <= k < 8 * (fst (SIZE cfg) / 8) ->
             Z.testbit (nth (Z.to_nat (y * ceil8 (fst (SIZE cfg)) + k / 8))
                            (packed cfg im) 0) (7 - k mod 8)
             = lit (im_load im k y)).
  { intros y k Hy Hk.
    rewrite <- (packed_bit cfg im k y) by lia.
    unfold bit_slot.
    now replace (k <? 8 * (fst (SIZE cfg) / 8)) with true
      by (symmetry; apply Z.ltb_lt; lia). }
  split; [exact Hfull|].
  intros HW y Hy.
  specialize (Hfull y 0 Hy ltac:(lia)).
  now rewrite Z.add_0_r in Hfull.
Qed.

Lemma get_1bit_msb_first_witness :
  canvas_of (set_SIZE FontCfg_new (10, 2)) (stripes (10, 2)) /\
  exists out,
    get_1bit (set_SIZE FontCfg_new (10, 2)) (stripes (10, 2)) = Ok out /\
    (forall y k,
        0 <= y < 2 -> 0 <= k < 8 * (10 / 8) ->
        Z.testbit (nth (Z.to_nat (y * ceil8 10 + k / 8)) out 0) (7 - k mod 8)
        = lit (im_load (stripes (10, 2)) k y)) /\
    (8 <= 10 ->
     forall y,
       0 <= y < 2 ->
       Z.testbit (nth (Z.to_nat (y * ceil8 10)) out 0) 7
       = lit (im_load (stripes (10, 2)) 0 y)).
Proof.
  split; [reflexivity|].
  apply (get_1bit_msb_first (set_SIZE FontCfg_new (10, 2)) (stripes (10, 2)));
    reflexivity.
Defined.

Lemma row_of_ext (cfg : FontCfg) (im1 im2 : Image) (y : Z) :
  (forall x, 0 <= x < fst (SIZE cfg) -> im_load im1 x y = im_load im2 x y) ->
  row_of cfg im1 y = row_of cfg im2 y.
Proof.
  intros H; unfold row_of; apply row_bytes_ext; intros k Hk.
  unfold row_bit; rewrite H by lia; reflexivity.
Qed.

(** C5: every row starts a fresh byte.  A row's step begins with the
    accumulator and the counter at 0 and appends [ceil(W/8)] whole bytes to
    the output, whatever the width; so byte [i] of the output belongs to row
    [i / ceil(W/8)] alone: it is the same for two canvases that agree on
    that row, however they differ on the others. *)
Theorem get_1bit_rows_apart (cfg : FontCfg) (im1 im2 : Image) :
  canvas_of cfg im1 -> canvas_of cfg im2 ->
  (forall charmap y,
      0 <= y < snd (SIZE cfg) ->
      exists row,
        row_step cfg im1 charmap y = Ok (charmap ++ row) /\
        List.length row = Z.to_nat (ceil8 (fst (SIZE cfg)))) /\
  exists out1 out2,
    get_1bit cfg im1 = Ok out1 /\ get_1bit cfg im2 = Ok out2 /\
    List.length out1 = List.length out2 /\
    forall i,
      0 <= i < Z.of_nat (List.length out1) ->
      let y := i / ceil8 (fst (SIZE cfg)) in
      (forall x, 0 <= x < fst (SIZE cfg) -> im_load im1 x y = im_load im2 x y) ->
      nth (Z.to_nat i) out1 0 = nth (Z.to_nat i) out2 0.
Proof.
  intros Hc1 Hc2; split.
  { intros cm y Hy; exists (row_of cfg im1 y); split;
      [now apply row_step_ok | apply length_row_of]. }
  exists (packed cfg im1), (packed cfg im2).
  split; [now apply get_1bit_packed|].
  split; [now apply get_1bit_packed|].
  split; [now rewrite !length_packed|].
  intros i Hi y Hrow; rewrite length_packed in Hi.
  set (c := ceil8 (fst (SIZE cfg))) in *.
  set (H := snd (SIZE cfg)) in *.
  assert (Hcpos : 0 < c) by nia.
  assert (HH : 0 < H) by nia.
  assert (Hy : 0 <= y < H).
  { unfold y; split; [apply Z.div_pos; lia|].
    apply Z.div_lt_upper_bound; [exact Hcpos | nia]. }
  assert (Hj : 0 <= i mod c < c) by (apply Z.mod_pos_bound; exact Hcpos).
  replace i with (y * c + i mod c)
    by (unfold y; rewrite (Z.mul_comm (i / c) c); symmetry; apply Z.div_mod; lia).
  unfold c, H in *.
  rewrite !packed_byte by assumption.
  now rewrite (row_of_ext cfg im1 im2 y Hrow).
Qed.

Lemma get_1bit_rows_apart_witness :
  canvas_of (set_SIZE FontCfg_new (3, 2)) (stripes (3, 2)) /\
  canvas_of (set_SIZE FontCfg_new (3, 2)) (stripes_then_lit (3, 2)) /\
  (forall charmap y,
      0 <= y < 2 ->
      exists row,
        row_step (set_SIZE FontCfg_new (3, 2)) (stripes (3, 2)) charmap y
        = Ok (charmap ++ row) /\
        List.length row = Z.to_nat (ceil8 3)) /\
  exists out1 out2,
    get_1bit (set_SIZE FontCfg_new (3, 2)) (stripes (3, 2)) = Ok out1 /\
    get_1bit (set_SIZE FontCfg_new (3, 2)) (stripes_then_lit (3, 2)) = Ok out2 /\
    List.length out1 = List.length out2 /\
    forall i,
      0 <= i < Z.of_nat (List.length out1) ->
      let y := i / ceil8 3 in
      (forall x, 0 <= x < 3 ->
                 im_load (stripes (3, 2)) x y = im_load (stripes_then_lit (3, 2)) x y) ->
      nth (Z.to_nat i) out1 0 = nth (Z.to_nat i) out2 0.
Proof.
  split; [reflexivity|]; split; [reflexivity|].
  apply (get_1bit_rows_apart (set_SIZE FontCfg_new (3, 2))
           (stripes (3, 2)) (stripes_then_lit (3, 2)));
    reflexivity.
Defined.

(** C9: packing is deterministic: on one configuration, two canvases with
    the same pixel contents give the same result, byte for byte. *)
Theorem get_1bit_deterministic (cfg : FontCfg) (im1 im2 : Image) :
  (forall x y,
      0 <= x < fst (SIZE cfg) -> 0 <= y < snd (SIZE cfg) ->
      getpixel im1 (x, y) = getpixel im2 (x, y)) ->
  get_1bit cfg im1 = get_1bit cfg im2.
Proof.
  intros Hpx; unfold get_1bit.
  apply for_each_ext; intros y cm Hy; apply in_range in Hy.
  unfold row_step; f_equal.
  apply for_each_ext; intros x [[cm' v] bit] Hx; apply in_range in Hx.
  unfold pixel_step; now rewrite Hpx.
Qed.

Lemma get_1bit_deterministic_witness :
  get_1bit (set_SIZE FontCfg_new (3, 2)) (stripes (3, 2)) =
  get_1bit (set_SIZE FontCfg_new (3, 2)) (stripes_framed (3, 2)).
Proof.
  apply (get_1bit_deterministic (set_SIZE FontCfg_new (3, 2))).
  simpl; intros x y Hx Hy.
  assert (Ex : x = 0 \/ x = 1 \/ x = 2) by lia.
  assert (Ey : y = 0 \/ y = 1) by lia.
  destruct Ex as [-> | [-> | ->]]; destruct Ey as [-> | ->]; reflexivity.
Defined.

Lemma get_1bit_is_byte (cfg : FontCfg) (im : Image) (res : list Z) :
  get_1bit cfg im = Ok res -> Forall is_byte res.
Proof.
  unfold get_1bit; intros H.
  eapply (for_each_invariant (Forall is_byte)); [ | | exact H].
  - intros cm y cm'; apply row_step_inv.
  - apply Forall_nil.
Qed.

(** C10: every element of the list [get_1bit] returns is an integer between
    0 and 255, so [bytes(res)] in [gen] does not raise. *)
Theorem get_1bit_byte_range (cfg : FontCfg) (im : Image) (res : list Z) :
  get_1bit cfg im = Ok res ->
  Forall (fun v => 0 <= v <= 255) res /\ exists bs, py_bytes res = Ok bs.
Proof.
  intros H; apply get_1bit_is_byte in H; split; [exact H|].
  now apply py_bytes_ok.
Qed.

Lemma get_1bit_byte_range_witness :
  get_1bit (set_SIZE FontCfg_new (3, 2)) (stripes (3, 2)) = Ok [80; 80] /\
  Forall (fun v => 0 <= v <= 255) [80; 80] /\
  exists bs, py_bytes [80; 80] = Ok bs.
Proof.
  split; [reflexivity|].
  apply (get_1bit_byte_range (set_SIZE FontCfg_new (3, 2)) (stripes (3, 2))).
  reflexivity.
Defined.

(** On its canvas [gen] gets its bytes: neither [get_1bit] nor [bytes]
    raises. *)
Lemma gen_raw_ok (cfg : FontCfg) (im : Image) :
  canvas_of cfg im -> exists bs, gen_raw cfg im = Ok bs.
Proof.
  intros Hc; unfold gen_raw.
  pose proof (get_1bit_packed cfg im Hc) as H; rewrite H; simpl.
  apply py_bytes_ok, (get_1bit_is_byte cfg im), H.
Qed.

Example rows_apart_3x2 :
  get_1bit (set_SIZE FontCfg_new (3, 2)) (stripes (3, 2)) = Ok [80; 80] /\
  get_1bit (set_SIZE FontCfg_new (3, 2)) (stripes_then_lit (3, 2)) = Ok [80; 112].
Proof. split; reflexivity. Qed.

(** ** The trailing byte of a row *)

(** What line 66 does on every canvas whose width is not a multiple of 8:
    the [r = W mod 8] collected bits are shifted by [7 - r], one place short
    of the top.  Bit 7 of the trailing byte is always 0, the first pixel of
    the partial group is bit 6, and the bits below the group are 0. *)
Lemma trailing_byte_layout (cfg : FontCfg) (im : Image) (y : Z) :
  canvas_of cfg im ->
  0 <= y < snd (SIZE cfg) ->
  0 <= fst (SIZE cfg) -> fst (SIZE cfg) mod 8 <> 0 ->
  exists out,
    get_1bit cfg im = Ok out /\
    let W := fst (SIZE cfg) in
    let byte := nth (Z.to_nat (y * ceil8 W + W / 8)) out 0 in
    Z.testbit byte 7 = false /\
    (forall k, 8 * (W / 8) <= k < W ->
               Z.testbit byte (6 - k mod 8) = lit (im_load im k y)) /\
    (forall m, m < 7 - W mod 8 -> Z.testbit byte m = false).
Proof.
  intros Hc Hy HW Hr; exists (packed cfg im); split; [now apply get_1bit_packed|].
  cbv zeta.
  assert (Hbyte : nth (Z.to_nat (y * ceil8 (fst (SIZE cfg)) + fst (SIZE cfg) / 8))
                      (packed cfg im) 0
                  = Z.shiftl (tail_val (row_bit im y)
                                       (Z.to_nat (fst (SIZE cfg)) / 8)
                                       (Z.to_nat (fst (SIZE cfg)) mod 8))
                             (7 - Z.of_nat (Z.to_nat (fst (SIZE cfg)) mod 8))).
  { rewrite packed_byte by (unfold ceil8; lia).
    unfold row_of.
    replace (Z.to_nat (fst (SIZE cfg) / 8)) with (Z.to_nat (fst (SIZE cfg)) / 8)%nat
      by (split8 (Z.to_nat (fst (SIZE cfg))); lia).
    apply nth_row_bytes_tail.
    split8 (Z.to_nat (fst (SIZE cfg))); lia. }
  assert (Hmod : Z.of_nat (Z.to_nat (fst (SIZE cfg)) mod 8) = fst (SIZE cfg) mod 8)
    by (split8 (Z.to_nat (fst (SIZE cfg))); lia).
  assert (Hlt : (Z.to_nat (fst (SIZE cfg)) mod 8 < 8)%nat)
    by (apply Nat.mod_upper_bound; lia).
  repeat split.
  - rewrite Hbyte; now apply trailing_msb.
  - intros k Hk.
    rewrite <- (packed_bit cfg im k y) by lia.
    unfold bit_slot.
    replace (k <? 8 * (fst (SIZE cfg) / 8)) with false
      by (symmetry; apply Z.ltb_ge; lia).
    do 2 f_equal; lia.
  - intros m Hm; rewrite Hbyte; apply trailing_low; lia.
Qed.

(** C1: the trailing partial byte of a row.  On a canvas 3 wide and 1 high
    whose pixels are lit, dark, lit, the row's only byte is 80 = 0b01010000:
    the first collected pixel is lit and is bit 6 of the byte, bit 7 is 0.
    With the collected bits in the high-order positions the byte would be
    160 = 0b10100000. *)
Theorem trailing_byte_3x1 :
  lit (im_load (stripes (3, 1)) 0 0) = true /\
  get_1bit (set_SIZE FontCfg_new (3, 1)) (stripes (3, 1)) = Ok [80] /\
  Z.testbit 80 7 = false /\
  Z.testbit 80 6 = true /\
  80 <> Z.shiftl (bits_val [true; false; true]) (8 - 3).
Proof. repeat split; try reflexivity; discriminate. Qed.

(** * The glyph table *)

Lemma printable_count : List.length (filter isprintable ASCII) = 95%nat.
Proof. reflexivity. Qed.

(** C6, as stated, fails: the table does not have 97 entries. *)
Lemma table_not_97_entries : List.length table_chars <> 97%nat.
Proof. vm_compute; discriminate. Qed.

(** C6, amended: the glyph table holds exactly 96 entries, the 95 printable
    characters among the first 128 code points and the appended placeholder;
    it is arranged as 6 rows of 16 characters, which it fills exactly, and the
    placeholder is at index 95. *)
Theorem table_96_entries :
  List.length table_chars = 96%nat /\
  List.length table = 6%nat /\
  Forall (fun line => List.length line = 16%nat) table /\
  List.concat table = table_chars /\
  nth_error table_chars 95 = Some "?"%char /\
  List.length drawn_cells = 96%nat.
Proof.
  repeat split; try reflexivity.
  unfold table; simpl; repeat (apply Forall_cons; [reflexivity|]); apply Forall_nil.
Qed.

(** * The two configurations *)

Lemma packed_length_of (cfg : FontCfg) (im : Image) (n : Z) :
  canvas_of cfg im ->
  Z.of_nat (Z.to_nat (snd (SIZE cfg)) * Z.to_nat (ceil8 (fst (SIZE cfg)))) = n ->
  exists out, get_1bit cfg im = Ok out /\ Z.of_nat (List.length out) = n.
Proof.
  intros Hc Hn; exists (packed cfg im); split; [now apply get_1bit_packed|].
  now rewrite length_packed.
Qed.

(** C7, as stated, fails: the cell width of the body configuration is not
    16, its canvas is not (256, 180), and its packed output does not have
    5760 bytes. *)
Lemma body_cfg_not_16 :
  WIDTH FontCfg_new <> 16 /\
  SIZE FontCfg_new <> (256, 180) /\
  ~ (exists out,
        get_1bit FontCfg_new (Image_new (SIZE FontCfg_new) BG) = Ok out /\
        Z.of_nat (List.length out) = 5760).
Proof.
  split; [vm_compute; discriminate|].
  split; [vm_compute; discriminate|].
  intros (out & Hout & Hlen).
  rewrite get_1bit_packed in Hout by reflexivity.
  apply Ok_inj in Hout; subst out.
  rewrite length_packed in Hlen; vm_compute in Hlen; discriminate.
Qed.

(** C7, amended: the body configuration ([SIZE = 26] in the class body) has
    cell [WIDTH = 15] and [HEIGHT = 30], its canvas size is (240, 180), and
    the packed output for it has exactly [ceil(240/8) * 180 = 5400] bytes. *)
Theorem body_cfg_packed (im : Image) :
  canvas_of FontCfg_new im ->
  WIDTH FontCfg_new = 15 /\
  HEIGHT FontCfg_new = 30 /\
  SIZE FontCfg_new = (240, 180) /\
  ceil8 240 * 180 = 5400 /\
  exists out,
    get_1bit FontCfg_new im = Ok out /\ Z.of_nat (List.length out) = 5400.
Proof.
  intros Hc; repeat (split; [reflexivity|]).
  apply packed_length_of; [exact Hc | reflexivity].
Qed.

Lemma body_cfg_packed_witness :
  canvas_of FontCfg_new (Image_new (SIZE FontCfg_new) BG) /\
  WIDTH FontCfg_new = 15 /\
  HEIGHT FontCfg_new = 30 /\
  SIZE FontCfg_new = (240, 180) /\
  ceil8 240 * 180 = 5400 /\
  exists out,
    get_1bit FontCfg_new (Image_new (SIZE FontCfg_new) BG) = Ok out /\
    Z.of_nat (List.length out) = 5400.
Proof.
  split; [reflexivity|].
  apply (body_cfg_packed (Image_new (SIZE FontCfg_new) BG)); reflexivity.
Defined.

(** C8: the title configuration, which [as_title] produces with
    [BLOCK_SIZE = 50], has cell [WIDTH = 28] and [HEIGHT = 54], its canvas
    size is (448, 324), and the packed output for it has exactly
    [ceil(448/8) * 324 = 18144] bytes. *)
Theorem title_cfg_packed (self : FontCfg) (im : Image) :
  canvas_of (as_title self) im ->
  BLOCK_SIZE (as_title self) = Some 50 /\
  WIDTH (as_title self) = 28 /\
  HEIGHT (as_title self) = 54 /\
  SIZE (as_title self) = (448, 324) /\
  ceil8 448 * 324 = 18144 /\
  exists out,
    get_1bit (as_title self) im = Ok out /\ Z.of_nat (List.length out) = 18144.
Proof.
  intros Hc; repeat (split; [reflexivity|]).
  apply packed_length_of; [exact Hc | reflexivity].
Qed.

Lemma title_cfg_packed_witness :
  canvas_of (as_title FontCfg_new) (Image_new (SIZE (as_title FontCfg_new)) BG) /\
  BLOCK_SIZE (as_title FontCfg_new) = Some 50 /\
  WIDTH (as_title FontCfg_new) = 28 /\
  HEIGHT (as_title FontCfg_new) = 54 /\
  SIZE (as_title FontCfg_new) = (448, 324) /\
  ceil8 448 * 324 = 18144 /\
  exists out,
    get_1bit (as_title FontCfg_new) (Image_new (SIZE (as_title FontCfg_new)) BG)
    = Ok out /\
    Z.of_nat (List.length out) = 18144.
Proof.
  split; [reflexivity|].
  apply (title_cfg_packed FontCfg_new (Image_new (SIZE (as_title FontCfg_new)) BG));
    reflexivity.
Defined.

(** * Further properties *)

(** ** When get_1bit raises *)

Lemma getpixel_inside (im : Image) (x y : Z) :
  0 <= x < fst (im_size im) -> 0 <= y < snd (im_size im) ->
  getpixel im (x, y) = Ok (im_load im x y).
Proof.
  unfold getpixel; intros Hx Hy.
  replace (0 <=? x) with true by (symmetry; apply Z.leb_le; lia).
  replace (x <? fst (im_size im)) with true by (symmetry; apply Z.ltb_lt; lia).
  replace (0 <=? y) with true by (symmetry; apply Z.leb_le; lia).
  replace (y <? snd (im_size im)) with true by (symmetry; apply Z.ltb_lt; lia).
  reflexivity.
Qed.

Lemma getpixel_outside (im : Image) (x y : Z) :
  ~ (0 <= x < fst (im_size im) /\ 0 <= y < snd (im_size im)) ->
  getpixel im (x, y) = Raise IndexError.
Proof.
  unfold getpixel; intros H.
  destruct (Z.leb_spec 0 x), (Z.ltb_spec x (fst (im_size im))),
           (Z.leb_spec 0 y), (Z.ltb_spec y (snd (im_size im)));
    simpl; try reflexivity; exfalso; apply H; lia.
Qed.

Lemma pixel_step_raise (im : Image) (y x : Z) (e : PyErr) (st : pack_state) :
  getpixel im (x, y) = Raise e -> pixel_step im y st x = Raise e.
Proof.
  intros H; destruct st as [[cm v] bit]; unfold pixel_step; now rewrite H.
Qed.

Lemma pixel_step_returns (im : Image) (y x : Z) (px : pixel) (st : pack_state) :
  getpixel im (x, y) = Ok px -> exists st', pixel_step im y st x = Ok st'.
Proof.
  intros H; destruct st as [[cm v] bit]; unfold pixel_step; rewrite H.
  cbv beta iota zeta delta [bind].
  destruct (bit + 1 =? 8); eexists; reflexivity.
Qed.

(** A loop whose steps either return in every state or raise [e] in every
    state raises [e] as soon as one of them does. *)
Lemma for_each_raises {A S : Type} (body : S -> A -> result S) (e : PyErr)
      (l : list A) :
  (forall a, In a l ->
             (forall s, exists s', body s a = Ok s') \/ (forall s, body s a = Raise e)) ->
  (exists a, In a l /\ forall s, body s a = Raise e) ->
  forall s, for_each body l s = Raise e.
Proof.
  induction l as [|a l IH]; intros Hall (a0 & Hin & Hraise) s.
  - destruct Hin.
  - simpl; destruct (Hall a (or_introl eq_refl)) as [Hok | Hr].
    + destruct (Hok s) as [s' Hs']; rewrite Hs'; simpl.
      apply IH.
      * intros a' Ha'; apply Hall; now right.
      * destruct Hin as [<- | Hin]; [|now exists a0].
        rewrite Hraise in Hs'; discriminate.
    + now rewrite Hr.
Qed.

(** A row all of whose pixels can be read appends its bytes. *)
Lemma row_step_reads (cfg : FontCfg) (im : Image) (cm : list Z) (y : Z) :
  (forall x, 0 <= x < fst (SIZE cfg) -> getpixel im (x, y) = Ok (im_load im x y)) ->
  row_step cfg im cm y = Ok (cm ++ row_of cfg im y).
Proof.
  intros Hpx; unfold row_step, row_of, range.
  set (n := Z.to_nat (fst (SIZE cfg))).
  assert (Hr : (n mod 8 < 8)%nat) by (apply Nat.mod_upper_bound; lia).
  rewrite (pixel_loop im y n (n / 8) (n mod 8) cm).
  - cbv beta iota zeta delta [bind]; unfold row_bytes.
    destruct (Nat.eqb_spec (n mod 8) 0) as [E|E].
    + rewrite E; simpl; now rewrite app_nil_r.
    + replace (Z.of_nat (n mod 8) =? 0) with false by (symmetry; apply Z.eqb_neq; lia).
      unfold py_lshift.
      replace (7 - Z.of_nat (n mod 8) <? 0) with false by (symmetry; apply Z.ltb_ge; lia).
      simpl; now rewrite app_assoc.
  - apply Nat.div_mod_eq.
  - exact Hr.
  - intros k Hk; apply Hpx; unfold n in Hk; lia.
Qed.

(** A row with a pixel outside the image raises, whatever the output so
    far. *)
Lemma row_step_raises (cfg : FontCfg) (im : Image) (cm : list Z) (y x : Z) :
  0 <= x < fst (SIZE cfg) ->
  getpixel im (x, y) = Raise IndexError ->
  row_step cfg im cm y = Raise IndexError.
Proof.
  intros Hx Hraise; unfold row_step.
  rewrite (for_each_raises (pixel_step im y) IndexError); [reflexivity | | ].
  - intros x' _.
    destruct (getpixel im (x', y)) as [px|e] eqn:E.
    + left; intros st; now apply (pixel_step_returns im y x' px).
    + right; intros st.
      assert (e = IndexError) as ->.
      { unfold getpixel in E.
        destruct ((0 <=? x') && (x' <? fst (im_size im)) && (0 <=? y)
                  && (y <? snd (im_size im))); congruence. }
      now apply pixel_step_raise.
  - exists x; split; [now apply in_range|].
    intros st; now apply pixel_step_raise.
Qed.

Lemma rows_loop_reads (cfg : FontCfg) (im : Image) (ys : list Z) (cm : list Z) :
  (forall x y, 0 <= x < fst (SIZE cfg) -> In y ys ->
               getpixel im (x, y) = Ok (im_load im x y)) ->
  for_each (row_step cfg im) ys cm = Ok (cm ++ flat_map (row_of cfg im) ys).
Proof.
  revert cm; induction ys as [|y ys IH]; intros cm Hpx; simpl.
  - now rewrite app_nil_r.
  - rewrite row_step_reads by (intros; apply Hpx; [assumption | now left]); simpl.
    rewrite IH by (intros; apply Hpx; [assumption | now right]).
    now rewrite app_assoc.
Qed.

(** The two outcomes of [get_1bit], and when each occurs. *)
Lemma get_1bit_cases (cfg : FontCfg) (im : Image) :
  (get_1bit cfg im = Ok (packed cfg im) /\
   (fst (SIZE cfg) <= 0 \/ snd (SIZE cfg) <= 0 \/ fits cfg im)) \/
  (get_1bit cfg im = Raise IndexError /\
   0 < fst (SIZE cfg) /\ 0 < snd (SIZE cfg) /\ ~ fits cfg im).
Proof.
  unfold fits.
  destruct (Z_le_gt_dec (fst (SIZE cfg)) 0) as [HW|HW];
    [|destruct (Z_le_gt_dec (snd (SIZE cfg)) 0) as [HH|HH];
      [|destruct (Z_le_gt_dec (fst (SIZE cfg)) (fst (im_size im))) as [Hw|Hw];
        [destruct (Z_le_gt_dec (snd (SIZE cfg)) (snd (im_size im))) as [Hh|Hh]|]]].
  1-3: left; split; [|lia];
    unfold get_1bit, packed; rewrite rows_loop_reads; [reflexivity|];
    intros x y Hx Hy; apply in_range in Hy; apply getpixel_inside; lia.
  all: right; split; [|lia];
    unfold get_1bit;
    apply (for_each_raises (row_step cfg im) IndexError).
  all: try (exists (snd (SIZE cfg) - 1); split; [apply in_range; lia|];
            intros cm; apply (row_step_raises cfg im cm _ (fst (SIZE cfg) - 1));
            [lia | apply getpixel_outside; lia]).
  all: intros y Hy; apply in_range in Hy.
  - destruct (Z_lt_ge_dec y (snd (im_size im))) as [Hin|Hout].
    + left; intros cm; eexists; apply row_step_reads.
      intros x Hx; apply getpixel_inside; lia.
    + right; intros cm; apply (row_step_raises cfg im cm _ 0);
        [lia | apply getpixel_outside; lia].
  - right; intros cm; apply (row_step_raises cfg im cm _ (fst (SIZE cfg) - 1));
      [lia | apply getpixel_outside; lia].
Qed.

(** X1: [get_1bit] raises [IndexError] exactly when the canvas the
    configuration declares is not empty and does not lie inside the image:
    the image is narrower than [cfg.SIZE[0]] or lower than [cfg.SIZE[1]].
    In every other case, and only then, it returns a list. *)
Theorem get_1bit_IndexError_iff (cfg : FontCfg) (im : Image) :
  (get_1bit cfg im = Raise IndexError <->
   0 < fst (SIZE cfg) /\ 0 < snd (SIZE cfg) /\
   (fst (im_size im) < fst (SIZE cfg) \/ snd (im_size im) < snd (SIZE cfg))) /\
  ((exists out, get_1bit cfg im = Ok out) <->
   fst (SIZE cfg) <= 0 \/ snd (SIZE cfg) <= 0 \/
   (fst (SIZE cfg) <= fst (im_size im) /\ snd (SIZE cfg) <= snd (im_size im))).
Proof.
  destruct (get_1bit_cases cfg im) as [[Hok Hc] | [Hraise Hc]]; unfold fits in Hc;
    split.
  - rewrite Hok; split; [discriminate | lia].
  - split; [intros _; exact Hc | intros _; now exists (packed cfg im)].
  - rewrite Hraise; split; [lia | reflexivity].
  - rewrite Hraise; split; [intros [out Hout]; discriminate | lia].
Qed.

Example get_1bit_small_image :
  get_1bit (set_SIZE FontCfg_new (3, 2)) (stripes (2, 2)) = Raise IndexError /\
  get_1bit (set_SIZE FontCfg_new (3, 2)) (stripes (3, 1)) = Raise IndexError /\
  get_1bit (set_SIZE FontCfg_new (3, 2)) (stripes (4, 5)) = Ok [80; 80].
Proof. repeat split; reflexivity. Qed.

(** X2: the packing step raises nothing but [IndexError]: the shift count
    [7 - bit] is never negative and every element fits a byte.  Either
    [get_1bit] returns and [bytes(res)] returns too, or both [get_1bit] and
    the packing step of [gen] end in [IndexError]. *)
Theorem packing_raises_only_IndexError (cfg : FontCfg) (im : Image) :
  (exists res bs, get_1bit cfg im = Ok res /\ gen_raw cfg im = Ok bs) \/
  (get_1bit cfg im = Raise IndexError /\ gen_raw cfg im = Raise IndexError).
Proof.
  unfold gen_raw.
  destruct (get_1bit_cases cfg im) as [[Hok _] | [Hraise _]].
  - left; destruct (py_bytes_ok (packed cfg im)) as [bs Hbs];
      [now apply (get_1bit_is_byte cfg im)|].
    exists (packed cfg im), bs; rewrite Hok; split; [reflexivity | exact Hbs].
  - right; rewrite Hraise; split; reflexivity.
Qed.

Lemma packed_nil (cfg : FontCfg) (im : Image) :
  fst (SIZE cfg) <= 0 \/ snd (SIZE cfg) <= 0 -> packed cfg im = [].
Proof.
  intros H; apply length_zero_iff_nil; rewrite length_packed.
  unfold ceil8; destruct H; nia.
Qed.

(** X3: on an empty canvas (a width or a height of 0 or less) [get_1bit]
    returns the empty list and reads no pixel: it does so on every image. *)
Theorem get_1bit_empty_canvas (cfg : FontCfg) (im : Image) :
  fst (SIZE cfg) <= 0 \/ snd (SIZE cfg) <= 0 ->
  get_1bit cfg im = Ok [].
Proof.
  intros H; destruct (get_1bit_cases cfg im) as [[Hok _] | [_ Hc]]; [|lia].
  now rewrite Hok, packed_nil.
Qed.

Lemma get_1bit_empty_canvas_witness :
  get_1bit (set_SIZE FontCfg_new (0, 5)) (Image_new (0, 0) BG) = Ok [].
Proof.
  apply (get_1bit_empty_canvas (set_SIZE FontCfg_new (0, 5)) (Image_new (0, 0) BG)).
  left; simpl; lia.
Defined.

(** ** What the output says about the canvas *)

Lemma flat_map_ext_in {A B : Type} (f g : A -> list B) (l : list A) :
  (forall a, In a l -> f a = g a) -> flat_map f l = flat_map g l.
Proof.
  induction l as [|a l IH]; intros H; simpl; [reflexivity|].
  rewrite (H a) by now left.
  rewrite IH by (intros; apply H; now right); reflexivity.
Qed.

Lemma packed_ext (cfg : FontCfg) (im1 im2 : Image) :
  (forall x y, 0 <= x < fst (SIZE cfg) -> 0 <= y < snd (SIZE cfg) ->
               lit (im_load im1 x y) = lit (im_load im2 x y)) ->
  packed cfg im1 = packed cfg im2.
Proof.
  intros H; unfold packed; apply flat_map_ext_in; intros y Hy; apply in_range in Hy.
  unfold row_of; apply row_bytes_ext; intros k Hk.
  unfold row_bit; apply H; lia.
Qed.

(** X4: the output is the thresholded canvas and nothing more.  Two canvases
    of a configuration give the same list exactly when they have the same
    pixels lit, so the list determines which pixels are lit, for every
    width. *)
Theorem get_1bit_eq_iff (cfg : FontCfg) (im1 im2 : Image) :
  canvas_of cfg im1 -> canvas_of cfg im2 ->
  (get_1bit cfg im1 = get_1bit cfg im2 <->
   forall x y, 0 <= x < fst (SIZE cfg) -> 0 <= y < snd (SIZE cfg) ->
               lit (im_load im1 x y) = lit (im_load im2 x y)).
Proof.
  intros Hc1 Hc2; rewrite !get_1bit_packed by assumption; split.
  - intros H x y Hx Hy; apply Ok_inj in H.
    rewrite <- (packed_bit cfg im1 x y), <- (packed_bit cfg im2 x y) by assumption.
    now rewrite H.
  - intros H; f_equal; now apply packed_ext.
Qed.

Lemma get_1bit_eq_iff_witness :
  canvas_of (set_SIZE FontCfg_new (3, 2)) (stripes (3, 2)) /\
  canvas_of (set_SIZE FontCfg_new (3, 2)) (stripes_then_lit (3, 2)) /\
  (get_1bit (set_SIZE FontCfg_new (3, 2)) (stripes (3, 2)) =
   get_1bit (set_SIZE FontCfg_new (3, 2)) (stripes_then_lit (3, 2)) <->
   forall x y, 0 <= x < 3 -> 0 <= y < 2 ->
               lit (im_load (stripes (3, 2)) x y)
               = lit (im_load (stripes_then_lit (3, 2)) x y)).
Proof.
  split; [reflexivity|]; split; [reflexivity|].
  apply (get_1bit_eq_iff (set_SIZE FontCfg_new (3, 2))); reflexivity.
Defined.

Lemma bits_val_dark (l : list nat) : bits_val (map (fun _ => false) l) = 0.
Proof.
  unfold bits_val; induction l as [|k l IH]; simpl; [reflexivity | exact IH].
Qed.

Lemma row_bytes_dark (n : nat) :
  Forall (fun v => v = 0) (row_bytes (fun _ => false) n).
Proof.
  unfold row_bytes; apply Forall_app; split.
  - apply Forall_forall; intros v Hv; apply in_map_iff in Hv.
    destruct Hv as (j & <- & _); apply bits_val_dark.
  - destruct (n mod 8 =? 0)%nat; [apply Forall_nil|].
    apply Forall_cons; [|apply Forall_nil].
    unfold tail_val; rewrite bits_val_dark; apply Z.shiftl_0_l.
Qed.

Lemma nth_all_zero (l : list Z) (i : nat) :
  Forall (fun v => v = 0) l -> nth i l 0 = 0.
Proof.
  intros H; revert i; induction H as [|v l Hv Hl IH]; intros [|i]; simpl; auto.
Qed.

(** X5: a canvas packs to zero bytes only exactly when none of its pixels
    has a red channel above 32; in particular the background [BG] alone
    packs to zeros. *)
Theorem get_1bit_zero_iff_dark (cfg : FontCfg) (im : Image) :
  canvas_of cfg im ->
  exists out,
    get_1bit cfg im = Ok out /\
    (Forall (fun v => v = 0) out <->
     forall x y, 0 <= x < fst (SIZE cfg) -> 0 <= y < snd (SIZE cfg) ->
                 chan0 (im_load im x y) <= 32).
Proof.
  intros Hc; exists (packed cfg im); split; [now apply get_1bit_packed|]; split.
  - intros Hz x y Hx Hy.
    pose proof (packed_bit cfg im x y Hx Hy) as Hbit.
    rewrite (nth_all_zero _ _ Hz), Z.testbit_0_l in Hbit.
    unfold lit in Hbit; symmetry in Hbit; rewrite Z.gtb_ltb in Hbit.
    apply Z.ltb_ge in Hbit; exact Hbit.
  - intros Hdark.
    unfold packed; apply Forall_flat_map, Forall_forall; intros y Hy.
    apply in_range in Hy; unfold row_of.
    rewrite (row_bytes_ext _ (fun _ => false)); [apply row_bytes_dark|].
    intros k Hk; unfold row_bit, lit; rewrite Z.gtb_ltb.
    apply Z.ltb_ge, Hdark; lia.
Qed.

Lemma get_1bit_zero_iff_dark_witness :
  canvas_of (set_SIZE FontCfg_new (3, 2)) (Image_new (3, 2) BG) /\
  exists out,
    get_1bit (set_SIZE FontCfg_new (3, 2)) (Image_new (3, 2) BG) = Ok out /\
    (Forall (fun v => v = 0) out <->
     forall x y, 0 <= x < 3 -> 0 <= y < 2 ->
                 chan0 (im_load (Image_new (3, 2) BG) x y) <= 32).
Proof.
  split; [reflexivity|].
  apply (get_1bit_zero_iff_dark (set_SIZE FontCfg_new (3, 2)) (Image_new (3, 2) BG)).
  reflexivity.
Defined.

(** X6: on a canvas laid out as a grid of 16 by 6 cells, as the class body
    and [as_title] lay it out, the width is a multiple of 8, so no row has a
    trailing partial byte: the output has [12 * WIDTH * HEIGHT] bytes, a row
    takes [2 * WIDTH] of them, and pixel [(x, y)] is bit [7 - x mod 8] of
    byte [y * (2 * WIDTH) + x / 8]. *)
Theorem get_1bit_on_grid (cfg : FontCfg) (im : Image) :
  grid_cfg cfg -> 0 <= WIDTH cfg -> 0 <= HEIGHT cfg ->
  canvas_of cfg im ->
  exists out,
    get_1bit cfg im = Ok out /\
    Z.of_nat (List.length out) = 12 * WIDTH cfg * HEIGHT cfg /\
    forall x y,
      0 <= x < WIDTH cfg * 16 -> 0 <= y < HEIGHT cfg * 6 ->
      Z.testbit (nth (Z.to_nat (y * (2 * WIDTH cfg) + x / 8)) out 0) (7 - x mod 8)
      = lit (im_load im x y).
Proof.
  unfold grid_cfg; intros Hg HW HH Hc.
  exists (packed cfg im); split; [now apply get_1bit_packed|].
  assert (Hceil : ceil8 (fst (SIZE cfg)) = 2 * WIDTH cfg)
    by (rewrite Hg; unfold ceil8; simpl fst; lia).
  split.
  - rewrite length_packed, Hceil, Hg; simpl snd; nia.
  - intros x y Hx Hy.
    pose proof (packed_bit cfg im x y) as Hbit.
    rewrite Hceil in Hbit; unfold bit_slot in Hbit; rewrite Hg in Hbit.
    simpl fst in Hbit; simpl snd in Hbit.
    replace (x <? 8 * (WIDTH cfg * 16 / 8)) with true in Hbit
      by (symmetry; apply Z.ltb_lt; lia).
    now apply Hbit.
Qed.

Lemma get_1bit_on_grid_witness :
  grid_cfg (as_title FontCfg_new) /\
  canvas_of (as_title FontCfg_new) (stripes (448, 324)) /\
  exists out,
    get_1bit (as_title FontCfg_new) (stripes (448, 324)) = Ok out /\
    Z.of_nat (List.length out) = 12 * 28 * 54 /\
    forall x y,
      0 <= x < 28 * 16 -> 0 <= y < 54 * 6 ->
      Z.testbit (nth (Z.to_nat (y * (2 * 28) + x / 8)) out 0) (7 - x mod 8)
      = lit (im_load (stripes (448, 324)) x y).
Proof.
  split; [reflexivity|]; split; [reflexivity|].
  apply (get_1bit_on_grid (as_title FontCfg_new) (stripes (448, 324)));
    [reflexivity | vm_compute; discriminate | vm_compute; discriminate | reflexivity].
Defined.

(** ** The bytes gen writes *)

Lemma py_byte_val (z : Z) (b : byte) : py_byte z = Ok b -> byte_val b = z.
Proof.
  unfold py_byte, byte_val.
  destruct (Z.ltb_spec z 0) as [Hneg|Hpos]; [discriminate|].
  destruct (Byte.of_N (Z.to_N z)) as [b'|] eqn:E; [|discriminate].
  intros H; apply Ok_inj in H; subst b'.
  apply Byte.to_of_N in E; rewrite E; now apply Z2N.id.
Qed.

Lemma py_bytes_vals (l : list Z) :
  forall bs, py_bytes l = Ok bs -> map byte_val bs = l.
Proof.
  induction l as [|z l IH]; intros bs H; simpl in H.
  - apply Ok_inj in H; now subst bs.
  - destruct (py_byte z) as [b|e] eqn:Eb; [|discriminate].
    destruct (py_bytes l) as [bs'|e] eqn:El; [|discriminate].
    simpl in H; apply Ok_inj in H; subst bs; simpl.
    now rewrite (py_byte_val z b Eb), (IH bs' eq_refl).
Qed.

(** X7: the bytes [gen] writes are the list of [get_1bit], element for
    element: as many bytes, each with the value of the integer at its
    place. *)
Theorem gen_raw_contents (cfg : FontCfg) (im : Image) (bs : list byte) :
  gen_raw cfg im = Ok bs -> get_1bit cfg im = Ok (map byte_val bs).
Proof.
  unfold gen_raw; destruct (get_1bit cfg im) as [res|e]; [|discriminate].
  simpl; intros H; now rewrite (py_bytes_vals res bs H).
Qed.

Lemma gen_raw_contents_witness :
  gen_raw (set_SIZE FontCfg_new (3, 2)) (stripes (3, 2)) = Ok ["P"%byte; "P"%byte] /\
  get_1bit (set_SIZE FontCfg_new (3, 2)) (stripes (3, 2))
  = Ok (map byte_val ["P"%byte; "P"%byte]).
Proof.
  split; [reflexivity|].
  apply (gen_raw_contents (set_SIZE FontCfg_new (3, 2)) (stripes (3, 2))).
  reflexivity.
Defined.

(** ** Rows compose *)

Lemma range_split (n m : Z) :
  0 <= n <= m ->
  range m = range n ++ map Z.of_nat (seq (Z.to_nat n) (Z.to_nat m - Z.to_nat n)).
Proof.
  intros H; unfold range; rewrite <- map_app; f_equal.
  replace (Z.to_nat m) with (Z.to_nat n + (Z.to_nat m - Z.to_nat n))%nat at 1 by lia.
  apply seq_app.
Qed.

Lemma firstn_length_app {A : Type} (l1 l2 : list A) (n : nat) :
  n = List.length l1 -> firstn n (l1 ++ l2) = l1.
Proof.
  intros ->; rewrite firstn_app, firstn_all, Nat.sub_diag; simpl.
  apply app_nil_r.
Qed.

(** X8: the rows are packed one after the other and independently of the
    rows below them.  With the height of the configuration lowered to [H'],
    on the same image, [get_1bit] returns the first [ceil(W/8) * H'] bytes of
    what it returns for the full height. *)
Theorem get_1bit_fewer_rows (cfg : FontCfg) (im : Image) (H' : Z) :
  canvas_of cfg im ->
  0 <= H' <= snd (SIZE cfg) ->
  exists out,
    get_1bit cfg im = Ok out /\
    get_1bit (set_SIZE cfg (fst (SIZE cfg), H')) im
    = Ok (firstn (Z.to_nat (ceil8 (fst (SIZE cfg)) * H')) out).
Proof.
  intros Hc HH; exists (packed cfg im); split; [now apply get_1bit_packed|].
  destruct (get_1bit_cases (set_SIZE cfg (fst (SIZE cfg), H')) im)
    as [[Hok _] | [_ (HW & HH' & Hfit)]].
  - rewrite Hok; f_equal.
    unfold packed at 2; rewrite (range_split H' (snd (SIZE cfg)) HH), flat_map_app.
    rewrite firstn_length_app; [reflexivity|].
    change (flat_map (row_of cfg im) (range H'))
      with (packed (set_SIZE cfg (fst (SIZE cfg), H')) im).
    rewrite length_packed; simpl fst; simpl snd.
    destruct (Z_lt_ge_dec (ceil8 (fst (SIZE cfg))) 0); nia.
  - exfalso; apply Hfit; unfold fits; rewrite Hc; simpl; lia.
Qed.

Lemma get_1bit_fewer_rows_witness :
  canvas_of (set_SIZE FontCfg_new (3, 2)) (stripes_then_lit (3, 2)) /\
  exists out,
    get_1bit (set_SIZE FontCfg_new (3, 2)) (stripes_then_lit (3, 2)) = Ok out /\
    get_1bit (set_SIZE (set_SIZE FontCfg_new (3, 2)) (3, 1)) (stripes_then_lit (3, 2))
    = Ok (firstn (Z.to_nat (ceil8 3 * 1)) out).
Proof.
  split; [reflexivity|].
  apply (get_1bit_fewer_rows (set_SIZE FontCfg_new (3, 2)) (stripes_then_lit (3, 2)) 1);
    [reflexivity | simpl; lia].
Defined.

(** ** The glyphs draw_img places *)

Lemma map_flat_map {A B C : Type} (g : B -> C) (f : A -> list B) (l : list A) :
  map g (flat_map f l) = flat_map (fun a => map g (f a)) l.
Proof.
  induction l as [|a l IH]; simpl; [reflexivity|].
  now rewrite map_app, IH.
Qed.

(** The cells in drawing order: cell [k] is in column [k mod 16] of row
    [k / 16] and holds the character of code [k + 32], the last one the
    placeholder. *)
Lemma drawn_cells_form :
  drawn_cells =
  map (fun k => (Z.of_nat (k mod 16), Z.of_nat (k / 16),
                 if (k <? 95)%nat then ascii_of_nat (k + 32) else "?"%char))
      (seq 0 96).
Proof. reflexivity. Qed.

Lemma text_calls_cells (cfg : FontCfg) :
  text_calls cfg =
  map (fun c : Z * Z * ascii =>
         ((WIDTH cfg * fst (fst c) + X_PAD cfg, HEIGHT cfg * snd (fst c) + Y_PAD cfg),
          snd c))
      drawn_cells.
Proof.
  unfold text_calls, drawn_cells; rewrite map_flat_map.
  apply flat_map_ext; intros [idy line].
  rewrite map_map; apply map_ext; intros [idx ch]; reflexivity.
Qed.

Lemma text_calls_form (cfg : FontCfg) :
  text_calls cfg =
  map (fun k =>
         ((WIDTH cfg * Z.of_nat (k mod 16) + X_PAD cfg,
           HEIGHT cfg * Z.of_nat (k / 16) + Y_PAD cfg),
          if (k <? 95)%nat then ascii_of_nat (k + 32) else "?"%char))
      (seq 0 96).
Proof. now rewrite text_calls_cells, drawn_cells_form, map_map. Qed.

Lemma text_calls_nth (cfg : FontCfg) (k : nat) :
  (k < 96)%nat ->
  nth_error (text_calls cfg) k =
  Some ((WIDTH cfg * Z.of_nat (k mod 16) + X_PAD cfg,
         HEIGHT cfg * Z.of_nat (k / 16) + Y_PAD cfg),
        if (k <? 95)%nat then ascii_of_nat (k + 32) else "?"%char).
Proof.
  intros Hk; rewrite text_calls_form, nth_error_map, nth_error_seq.
  replace (k <? 96)%nat with true by (symmetry; apply Nat.ltb_lt; exact Hk).
  reflexivity.
Qed.

Lemma text_calls_nth_inv (cfg : FontCfg) (k : nat) (c : (Z * Z) * ascii) :
  nth_error (text_calls cfg) k = Some c ->
  (k < 96)%nat /\
  fst c = (WIDTH cfg * Z.of_nat (k mod 16) + X_PAD cfg,
           HEIGHT cfg * Z.of_nat (k / 16) + Y_PAD cfg).
Proof.
  intros H.
  assert (Hk : (k < 96)%nat).
  { assert (H' : nth_error (text_calls cfg) k <> None) by congruence.
    apply nth_error_Some in H'.
    rewrite text_calls_form, length_map, length_seq in H'; exact H'. }
  split; [exact Hk|].
  rewrite text_calls_nth in H by exact Hk.
  injection H as <-; reflexivity.
Qed.

(** X9: where [draw_img] puts each character.  The printable character of
    code [n] (32 to 126) is the glyph number [n - 32]: it is drawn in column
    [(n - 32) mod 16] of row [(n - 32) / 16] of the grid, at the position
    [(WIDTH * column + X_PAD, HEIGHT * row + Y_PAD)]. *)
Theorem draw_img_glyph_cell (cfg : FontCfg) (n : Z) :
  32 <= n <= 126 ->
  nth_error (text_calls cfg) (Z.to_nat (n - 32)) =
  Some ((WIDTH cfg * ((n - 32) mod 16) + X_PAD cfg,
         HEIGHT cfg * ((n - 32) / 16) + Y_PAD cfg),
        ascii_of_nat (Z.to_nat n)).
Proof.
  intros Hn; rewrite text_calls_nth by lia.
  replace (Z.to_nat (n - 32) <? 95)%nat with true by (symmetry; apply Nat.ltb_lt; lia).
  rewrite Nat2Z.inj_mod, Nat2Z.inj_div, Z2Nat.id by lia.
  replace (Z.to_nat (n - 32) + 32)%nat with (Z.to_nat n) by lia.
  reflexivity.
Qed.

Lemma draw_img_glyph_cell_witness :
  nth_error (text_calls (as_title FontCfg_new)) (Z.to_nat (65 - 32)) =
  Some ((WIDTH (as_title FontCfg_new) * ((65 - 32) mod 16) + X_PAD (as_title FontCfg_new),
         HEIGHT (as_title FontCfg_new) * ((65 - 32) / 16) + Y_PAD (as_title FontCfg_new)),
        ascii_of_nat (Z.to_nat 65)).
Proof. apply (draw_img_glyph_cell (as_title FontCfg_new) 65); lia. Defined.

Example glyph_A_title :
  nth_error (text_calls (as_title FontCfg_new)) 33 = Some ((28, 108), "A"%char).
Proof. reflexivity. Qed.

(** X10: on a grid canvas without padding, every glyph cell lies inside the
    canvas: each [draw.text] position is the top-left corner of a
    [WIDTH] by [HEIGHT] rectangle that does not leave the image. *)
Theorem draw_img_cells_inside (cfg : FontCfg) (k : nat) (c : (Z * Z) * ascii) :
  grid_cfg cfg -> X_PAD cfg = 0 -> Y_PAD cfg = 0 ->
  0 <= WIDTH cfg -> 0 <= HEIGHT cfg ->
  nth_error (text_calls cfg) k = Some c ->
  0 <= fst (fst c) /\ fst (fst c) + WIDTH cfg <= fst (SIZE cfg) /\
  0 <= snd (fst c) /\ snd (fst c) + HEIGHT cfg <= snd (SIZE cfg).
Proof.
  unfold grid_cfg; intros Hg Hx Hy HW HH Hc.
  apply text_calls_nth_inv in Hc; destruct Hc as [Hk ->].
  rewrite Hg, Hx, Hy; cbn [fst snd].
  assert (Hcol : 0 <= Z.of_nat (k mod 16) < 16)
    by (pose proof (Nat.mod_upper_bound k 16); lia).
  assert (Hrow : 0 <= Z.of_nat (k / 16) < 6).
  { pose proof (Nat.div_mod_eq k 16); pose proof (Nat.mod_upper_bound k 16).
    generalize dependent (k mod 16)%nat; generalize dependent (k / 16)%nat.
    intros; lia. }
  generalize dependent (Z.of_nat (k mod 16)); intros col Hcol.
  generalize dependent (Z.of_nat (k / 16)); intros row Hrow.
  repeat split; nia.
Qed.

Lemma draw_img_cells_inside_witness :
  nth_error (text_calls FontCfg_new) 95 = Some ((225, 150), "?"%char) /\
  0 <= 225 /\ 225 + WIDTH FontCfg_new <= fst (SIZE FontCfg_new) /\
  0 <= 150 /\ 150 + HEIGHT FontCfg_new <= snd (SIZE FontCfg_new).
Proof.
  split; [reflexivity|].
  apply (draw_img_cells_inside FontCfg_new 95 ((225, 150), "?"%char));
    try reflexivity; vm_compute; discriminate.
Defined.

(** X11: no two glyph cells overlap.  With a positive cell width and height,
    the rectangles of two different [draw.text] calls are disjoint, whatever
    the padding. *)
Theorem draw_img_cells_disjoint (cfg : FontCfg) (i j : nat) (c1 c2 : (Z * Z) * ascii) :
  0 < WIDTH cfg -> 0 < HEIGHT cfg ->
  i <> j ->
  nth_error (text_calls cfg) i = Some c1 ->
  nth_error (text_calls cfg) j = Some c2 ->
  fst (fst c1) + WIDTH cfg <= fst (fst c2) \/
  fst (fst c2) + WIDTH cfg <= fst (fst c1) \/
  snd (fst c1) + HEIGHT cfg <= snd (fst c2) \/
  snd (fst c2) + HEIGHT cfg <= snd (fst c1).
Proof.
  intros HW HH Hij H1 H2.
  apply text_calls_nth_inv in H1; destruct H1 as [Hi ->].
  apply text_calls_nth_inv in H2; destruct H2 as [Hj ->].
  cbn [fst snd].
  pose proof (Nat.div_mod_eq i 16); pose proof (Nat.mod_upper_bound i 16).
  pose proof (Nat.div_mod_eq j 16); pose proof (Nat.mod_upper_bound j 16).
  generalize dependent (i mod 16)%nat; generalize dependent (i / 16)%nat.
  generalize dependent (j mod 16)%nat; generalize dependent (j / 16)%nat.
  intros qj rj Hj1 Hj2 qi ri Hi1 Hi2.
  destruct (Nat.eq_dec ri rj) as [Er|Er].
  - assert (qi <> qj) by lia.
    destruct (Nat.lt_ge_cases qi qj); [right; right; left | right; right; right]; nia.
  - destruct (Nat.lt_ge_cases ri rj); [left | right; left]; nia.
Qed.

Lemma draw_img_cells_disjoint_witness :
  nth_error (text_calls FontCfg_new) 1 = Some ((15, 0), "!"%char) /\
  nth_error (text_calls FontCfg_new) 16 = Some ((0, 30), "0"%char) /\
  (fst (fst ((15, 0), "!"%char)) + WIDTH FontCfg_new <= fst (fst ((0, 30), "0"%char)) \/
   fst (fst ((0, 30), "0"%char)) + WIDTH FontCfg_new <= fst (fst ((15, 0), "!"%char)) \/
   snd (fst ((15, 0), "!"%char)) + HEIGHT FontCfg_new <= snd (fst ((0, 30), "0"%char)) \/
   snd (fst ((0, 30), "0"%char)) + HEIGHT FontCfg_new <= snd (fst ((15, 0), "!"%char))).
Proof.
  split; [reflexivity|]; split; [reflexivity|].
  apply (draw_img_cells_disjoint FontCfg_new 1 16);
    try reflexivity; try discriminate.
Defined.

(** ** The first pixel of a narrow row *)

(** C4: the first pixel of each row should be the most significant bit of
    the row's first byte.  On a canvas 5 wide and 2 high with columns lit,
    dark, lit, dark, lit, each row is the single byte 84 = 0b01010100: the
    first pixel of each row is lit, and bit 7 of the row's first byte is 0;
    the pixel is bit 6.  MSB-first the rows would be 168 = 0b10101000. *)
Theorem first_pixel_5x2 :
  get_1bit (set_SIZE FontCfg_new (5, 2)) (stripes (5, 2)) = Ok [84; 84] /\
  lit (im_load (stripes (5, 2)) 0 0) = true /\
  lit (im_load (stripes (5, 2)) 0 1) = true /\
  Z.testbit (nth (Z.to_nat (0 * ceil8 5)) [84; 84] 0) 7 = false /\
  Z.testbit (nth (Z.to_nat (1 * ceil8 5)) [84; 84] 0) 7 = false /\
  Z.testbit (nth (Z.to_nat (0 * ceil8 5)) [84; 84] 0) 6 = true /\
  84 <> Z.shiftl (bits_val [true; false; true; false; true]) (8 - 5).
Proof. repeat split; try reflexivity; discriminate. Qed.
